(** * video-fullscreen: the API resolver and the fullscreen controller

    A shallow embedding of [dist/video-fullscreen.js]: the search for the
    supported fullscreen API ([findSupported]) and the controller built by
    [createFullscreen], with its standard mode (a resolved API mapping) and
    its legacy mode (one tracked video element). *)

From stdpp Require Import gmap strings list fin_maps.

#[local] Set Warnings "-clear-no-such-hyp".

Local Open Scope string_scope.

(** ** JavaScript values *)

(** Objects (elements, functions, promises) are compared by reference. *)
Definition ref := nat.

(** The values the controller handles.  It never computes with numbers, so
    they are left out; [===] on the remaining values is plain equality. *)
Inductive value : Type :=
  | VUndefined
  | VNull
  | VBool (b : bool)
  | VString (s : string)
  | VObject (r : ref).

#[global] Instance value_eq_dec : EqDecision value.
Proof. solve_decision. Defined.

(** [Boolean(v)] *)
Definition truthy (v : value) : bool :=
  match v with
  | VUndefined | VNull => false
  | VBool b => b
  | VString s => negb (String.eqb s "")
  | VObject _ => true
  end.

(** [a === b] *)
Definition strict_equal (a b : value) : bool := bool_decide (a = b).

(** [a && b] and [a || b] on values: the operand that decides is returned. *)
Definition js_and (a b : value) : value := if truthy a then b else a.
Definition js_or (a b : value) : value := if truthy a then a else b.

(** A value that has no properties to read: [v.p] throws on it. *)
Definition nullish (v : value) : bool :=
  match v with
  | VUndefined | VNull => true
  | _ => false
  end.

(** What the interface gives for the current element: an element
    reference or [null]. *)
Definition element_or_null (v : value) : Prop := v = VNull ∨ ∃ r, v = VObject r.

(** ** The API resolver *)

(** [arr[i]] used as a property name: a missing entry is [undefined], which
    names the property ["undefined"]. *)
Definition prop_key (name : option string) : string := default "undefined" name.

(** [result[key] = funcName] on an ordinary object, for a string [funcName].
    The name [__proto__] is the inherited accessor of every ordinary object:
    assigning a string through it is ignored and stores no property. *)
Definition obj_set (key funcName : string) (result : gmap string string)
  : gmap string string :=
  if decide (key = "__proto__") then result else <[key := funcName]> result.

Definition API_LIST : list (list string) :=
  [ ["requestFullscreen"; "exitFullscreen"; "fullscreenElement";
     "fullscreenEnabled"; "fullscreenchange"; "fullscreenerror"];
    ["webkitRequestFullscreen"; "webkitExitFullscreen"; "webkitFullscreenElement";
     "webkitFullscreenEnabled"; "webkitfullscreenchange"; "webkitfullscreenerror"];
    ["webkitRequestFullScreen"; "webkitCancelFullScreen";
     "webkitCurrentFullScreenElement"; "webkitCancelFullScreen";
     "webkitfullscreenchange"; "webkitfullscreenerror"];
    ["mozRequestFullScreen"; "mozCancelFullScreen"; "mozFullScreenElement";
     "mozFullScreenEnabled"; "mozfullscreenchange"; "mozfullscreenerror"];
    ["msRequestFullscreen"; "msExitFullscreen"; "msFullscreenElement";
     "msFullscreenEnabled"; "MSFullscreenChange"; "MSFullscreenError"] ].

(** The [for] loop of [findSupported]: the first bundle whose entry 1 is a
    property of the document; [in_document name] is [name in document]. *)
Fixpoint supportedApi (in_document : string → bool) (apiList : list (list string))
  : option (list string) :=
  match apiList with
  | [] => None
  | api :: rest =>
      if in_document (prop_key (api !! 1%nat)) then Some api
      else supportedApi in_document rest
  end.

(** [supportedApi.reduce(function (result, funcName, i) {
       result[standardApi[i]] = funcName; return result; }, {})],
    unrolled from index [i] on. *)
Fixpoint reduce_from (standardApi : list string) (i : nat)
    (funcNames : list string) (result : gmap string string) : gmap string string :=
  match funcNames with
  | [] => result
  | funcName :: rest =>
      reduce_from standardApi (S i) rest
        (obj_set (prop_key (standardApi !! i)) funcName result)
  end.

Definition findSupported (apiList : list (list string)) (in_document : string → bool)
  : option (gmap string string) :=
  match supportedApi in_document apiList with
  | Some api =>
      match apiList !! 0%nat with
      | Some standardApi => Some (reduce_from standardApi 0 api ∅)
      | None => None
      end
  | None => None
  end.

(** The claim on the resolved mapping as it is worded: bundle [i] is the one
    selected, the keys are the names of bundle 0, and every position [j]
    pairs name [j] of bundle 0 with name [j] of bundle [i]. *)
Definition resolves_positionwise (apiList : list (list string))
    (in_document : string → bool) (i : nat) : Prop :=
  ∃ standardApi api mapping,
    apiList !! 0%nat = Some standardApi ∧ apiList !! i = Some api ∧
    supportedApi in_document apiList = Some api ∧
    findSupported apiList in_document = Some mapping ∧
    dom mapping = list_to_set standardApi ∧
    ∀ j key, standardApi !! j = Some key → mapping !! key = api !! j.

(** [i] is the smallest index whose bundle has its entry 1 on the document. *)
Definition first_match (apiList : list (list string))
    (in_document : string → bool) (i : nat) : Prop :=
  (∃ api, apiList !! i = Some api ∧ in_document (prop_key (api !! 1%nat)) = true) ∧
  ∀ k api, (k < i)%nat → apiList !! k = Some api →
           in_document (prop_key (api !! 1%nat)) = false.

(** ** The host environment *)

(** What a throwing call raises: the language's own [TypeError] (a property
    read or a call on [null]/[undefined]), or a value thrown by the host. *)
Inductive exn : Type :=
  | TypeError
  | Thrown (e : value).

Inductive completion (A : Type) : Type :=
  | Normal (a : A)
  | Throw (e : exn).
Arguments Normal {A} a.
Arguments Throw {A} e.

(** The document and its elements, as the controller uses them.  Property
    reads are observations of the current [world]; every read in the source
    has a receiver that is not [null]/[undefined] (the document, the probe
    video, or the tracked video behind its truthiness guard).  Method calls
    may change the world and may throw; a call returns before any other
    operation of the controller runs, so [activeVideo], a variable of the
    closure, is out of the host's reach. *)
Class Host := {
  world : Type;
  (** [name in obj] *)
  has_property : world → ref → string → bool;
  (** [obj[name]] *)
  get_property : world → value → string → value;
  (** [obj[name](args...)] on a receiver that is not [null]/[undefined] *)
  invoke : world → value → string → list value → completion value * world;
  (** [document.createElement(tag)]: an element, unless it throws *)
  createElement : world → ref → string → completion ref * world
}.

(** One call that reached the host. *)
Record call : Type := Call {
  receiver : value;
  method : string;
  args : list value
}.

#[global] Instance call_eq_dec : EqDecision call.
Proof. solve_decision. Defined.

(** The argument of [isFullscreen], [request] and [toggle]: nothing (or
    [undefined]), [null], or an object read through its fields [el] and
    [video] ([VUndefined] for a field that is not there; a number or a
    string passed as the argument has neither field). *)
Inductive target : Type :=
  | TUndefined
  | TNull
  | TObject (el video : value).

(** What [createFullscreen] closes over, apart from the mutable slot. *)
Record controller : Type := Controller {
  API : option (gmap string string);
  document : ref;
  TEST_VIDEO : ref
}.

Section Controller.
Context `{Host}.

(** The state the operations run in: the host's world, the closure variable
    [activeVideo], and the calls made on the host so far. *)
Record state : Type := State {
  env : world;
  activeVideo : value;
  calls : list call
}.

(** Computations that read and change the state and may throw. *)
Definition M (A : Type) : Type := state → completion A * state.

#[global] Instance M_ret : MRet M := λ A a s, (Normal a, s).

#[global] Instance M_bind : MBind M := λ A B f m s,
  match m s with
  | (Normal a, s') => f a s'
  | (Throw e, s') => (Throw e, s')
  end.

Definition throw {A} (e : exn) : M A := λ s, (Throw e, s).

(** [try { m } catch (e) { handler e }] *)
Definition try_catch {A} (m : M A) (handler : exn → M A) : M A := λ s,
  match m s with
  | (Throw e, s') => handler e s'
  | r => r
  end.

Definition gets {A} (f : state → A) : M A := λ s, (Normal (f s), s).

(** [activeVideo = v] *)
Definition set_activeVideo (v : value) : M unit := λ s,
  (Normal (), State (env s) v (calls s)).

(** [recv[name](args...)]: reading the method off [null] or [undefined]
    throws before anything reaches the host. *)
Definition call_method (recv : value) (name : string) (args : list value) : M value :=
  λ s,
  if nullish recv then (Throw TypeError, s)
  else
    let '(r, w) := invoke (env s) recv name args in
    (r, State w (activeVideo s) (calls s ++ [Call recv name args])%list).

(** [API[name]] as a value. *)
Definition api_get (api : gmap string string) (name : string) : value :=
  match api !! name with
  | Some s => VString s
  | None => VUndefined
  end.

(** [_ref.el] and [_ref.video], where [_ref] is the argument or [{}] when
    the argument is [undefined]; [null] has no fields to read. *)
Definition fields (t : target) : M (value * value) :=
  match t with
  | TUndefined => mret (VUndefined, VUndefined)
  | TNull => throw TypeError
  | TObject el video => mret (el, video)
  end.

Definition createFullscreen (apiList : list (list string)) (document : ref)
  : M controller := λ s,
  let API := findSupported apiList (has_property (env s) document) in
  let log := (calls s ++ [Call (VObject document) "createElement" [VString "video"]])%list in
  match createElement (env s) document "video" with
  | (Normal TEST_VIDEO, w) => (Normal (Controller API document TEST_VIDEO), State w VNull log)
  | (Throw e, w) => (Throw e, State w (activeVideo s) log)
  end.

(** [get enabled()] *)
Definition enabled (c : controller) (s : state) : bool :=
  let elementEnabled :=
    match API c with
    | Some api =>
        get_property (env s) (VObject (document c)) (prop_key (api !! "fullscreenEnabled"))
    | None => VNull
    end in
  let videoEnabled := get_property (env s) (VObject (TEST_VIDEO c)) "webkitEnterFullscreen" in
  truthy (js_or elementEnabled videoEnabled).

(** [get element()] *)
Definition element (c : controller) (s : state) : value :=
  match API c with
  | Some api =>
      get_property (env s) (VObject (document c)) (prop_key (api !! "fullscreenElement"))
  | None =>
      if truthy (js_and (activeVideo s)
                        (get_property (env s) (activeVideo s) "webkitDisplayingFullscreen"))
      then activeVideo s else VNull
  end.

Definition isFullscreen (c : controller) (t : target) : M bool :=
  '(el, video) ← fields t;
  match API c with
  | Some _ =>
      gets (λ s, if truthy el then strict_equal el (element c s) else truthy (element c s))
  | None =>
      gets (λ s, if truthy video then strict_equal video (element c s)
                 else truthy (element c s))
  end.

Definition request (c : controller) (t : target) : M value :=
  '(el, video) ← fields t;
  match API c with
  | Some api =>
      el ← gets (λ s, js_or el (get_property (env s) (VObject (document c)) "documentElement"));
      call_method el (prop_key (api !! "requestFullscreen")) []
  | None =>
      if truthy video then
        try_catch
          (set_activeVideo video;; call_method video "webkitEnterFullscreen" [])
          (λ _, set_activeVideo VNull;; mret VUndefined)
      else mret VUndefined
  end.

Definition exit (c : controller) : M value :=
  match API c with
  | Some api => call_method (VObject (document c)) (prop_key (api !! "exitFullscreen")) []
  | None =>
      v ← gets activeVideo;
      if truthy v then
        try_catch
          (set_activeVideo VNull;;
           v ← gets activeVideo;
           call_method v "webkitExitFullscreen" [])
          (λ _, mret VUndefined)
      else mret VUndefined
  end.

Definition toggle (c : controller) (t : target) : M value :=
  isFullscreen c t ≫= λ b : bool,
    if b then exit c;; mret VUndefined
    else request c t;; mret VUndefined.

Definition onChange (c : controller) (listener : value) : M value :=
  match API c with
  | Some api =>
      call_method (VObject (document c)) "addEventListener"
        [api_get api "fullscreenchange"; listener; VBool false];;
      mret VUndefined
  | None => mret VUndefined
  end.

Definition offChange (c : controller) (listener : value) : M value :=
  match API c with
  | Some api =>
      call_method (VObject (document c)) "removeEventListener"
        [api_get api "fullscreenchange"; listener; VBool false];;
      mret VUndefined
  | None => mret VUndefined
  end.

Definition onError (c : controller) (listener : value) : M value :=
  match API c with
  | Some api =>
      call_method (VObject (document c)) "addEventListener"
        [api_get api "fullscreenerror"; listener; VBool false];;
      mret VUndefined
  | None => mret VUndefined
  end.

Definition offError (c : controller) (listener : value) : M value :=
  match API c with
  | Some api =>
      call_method (VObject (document c)) "removeEventListener"
        [api_get api "fullscreenerror"; listener; VBool false];;
      mret VUndefined
  | None => mret VUndefined
  end.

End Controller.

(** ** The specification's wording of two operations *)

Section Wording.
Context `{Host}.

(** Standard-path capability: a mapping was resolved and the document
    reports the resolved enabled-property as truthy. *)
Definition standard_capability (c : controller) (s : state) : bool :=
  match API c with
  | Some api =>
      truthy (get_property (env s) (VObject (document c))
                (prop_key (api !! "fullscreenEnabled")))
  | None => false
  end.

(** Legacy-path capability: the probe video has the single-element
    fullscreen entry point. *)
Definition legacy_capability (c : controller) (s : state) : bool :=
  truthy (get_property (env s) (VObject (TEST_VIDEO c)) "webkitEnterFullscreen").

(** [isFullscreen(target) ? exit() : request(target)] *)
Definition toggle_conditional (c : controller) (t : target) : M value :=
  isFullscreen c t ≫= λ b : bool, if b then exit c else request c t.

(** The slot holds [null] or a video that passed the guard of [request]. *)
Definition slot_ok (s : state) : Prop :=
  activeVideo s = VNull ∨ truthy (activeVideo s) = true.

End Wording.

(** ** Sessions *)

(** The operations of the controller that can change something (the getters
    [api], [enabled] and [element] only read). *)
Inductive operation : Type :=
  | IsFullscreen (t : target)
  | Request (t : target)
  | Exit
  | Toggle (t : target)
  | OnChange (listener : value)
  | OffChange (listener : value)
  | OnError (listener : value)
  | OffError (listener : value).

(** The native enter call on a video, as it reaches the host. *)
Definition enter_call (video : value) : call := Call video "webkitEnterFullscreen" [].

Section Session.
Context `{Host}.

(** [fullscreen.op(...)] as the page calls it. *)
Definition perform (c : controller) (op : operation) : M value :=
  match op with
  | IsFullscreen t => isFullscreen c t ≫= λ b : bool, mret (VBool b)
  | Request t => request c t
  | Exit => exit c
  | Toggle t => toggle c t
  | OnChange listener => onChange c listener
  | OffChange listener => offChange c listener
  | OnError listener => onError c listener
  | OffError listener => offError c listener
  end.

(** What happens on a page between its creation and now: the page calls an
    operation (and goes on whether it returned or threw), or the host
    changes on its own (a transition completes, the user leaves
    fullscreen), which the controller does not see. *)
Inductive event : Type :=
  | Op (op : operation)
  | HostChange (w : world).

Definition after (c : controller) (s : state) (e : event) : state :=
  match e with
  | Op op => snd (perform c op s)
  | HostChange w => State w (activeVideo s) (calls s)
  end.

Definition session (c : controller) (es : list event) (s : state) : state :=
  foldl (after c) s es.

(** The slot holds [null], or a video that passed the guard of [request]
    and whose native enter call reached the host. *)
Definition slot_entered (s : state) : Prop :=
  activeVideo s = VNull ∨
  (truthy (activeVideo s) = true ∧ enter_call (activeVideo s) ∈ calls s).

End Session.

(** ** A small host to run the operations on *)

(** A page: the names its document exposes, the element its fullscreen
    properties report, whether its videos have the legacy entry point, and
    whether native calls are refused. *)
Record page : Type := Page {
  names : list string;
  current : value;
  legacy : bool;
  refuse : bool
}.

(** The methods of the page's objects.  The document can register
    listeners and create elements, and has the standard exit method when it
    exposes that name; an element has the standard request method on such a
    document, and the legacy entry and exit points on a [legacy] page. *)
Definition page_method (w : page) (recv : value) (name : string) : bool :=
  match recv with
  | VObject 0 =>
      bool_decide (name ∈ ["addEventListener"; "removeEventListener"; "createElement"])
      || bool_decide (name = "exitFullscreen") && bool_decide (name ∈ names w)
  | VObject _ =>
      bool_decide (name = "requestFullscreen") && bool_decide ("exitFullscreen" ∈ names w)
      || bool_decide (name ∈ ["webkitEnterFullscreen"; "webkitExitFullscreen"]) && legacy w
  | _ => false
  end.

Definition page_get (w : page) (recv : value) (name : string) : value :=
  if page_method w recv name then VObject 2
  else if decide (recv = VObject 0) then
    if decide (name = "documentElement") then VObject 1
    else if decide (name ∈ names w) then
      (if decide (name = "fullscreenElement") then current w else VBool true)
    else VUndefined
  else if decide (name = "webkitDisplayingFullscreen") then
    VBool (bool_decide (current w = recv))
  else VUndefined.

(** Calling what is not a method of the receiver throws a [TypeError]. *)
Definition page_invoke (w : page) (recv : value) (name : string) (args : list value)
  : completion value * page :=
  if negb (page_method w recv name) then (Throw TypeError, w)
  else if refuse w then (Throw (Thrown (VString "NotAllowedError")), w)
  else if decide (name ∈ ["requestFullscreen"; "webkitEnterFullscreen"]) then
    (Normal (VObject 3), Page (names w) recv (legacy w) (refuse w))
  else if decide (name ∈ ["exitFullscreen"; "webkitExitFullscreen"]) then
    (Normal (VObject 3), Page (names w) VNull (legacy w) (refuse w))
  else (Normal VUndefined, w).

#[global] Instance page_host : Host := {|
  world := page;
  has_property w _ name :=
    bool_decide (name ∈ names w) ||
    bool_decide (name ∈ ["documentElement"; "addEventListener";
                         "removeEventListener"; "createElement"]);
  get_property := page_get;
  invoke := page_invoke;
  createElement w _ _ := (Normal 4%nat, w)
|}.

(** A page with the standard API, nothing in fullscreen. *)
Definition standard_page : page :=
  Page ["exitFullscreen"; "fullscreenElement"; "fullscreenEnabled"] VNull false false.

(** A page without any fullscreen API, whose videos have the legacy one. *)
Definition legacy_page : page := Page [] VNull true false.

(** The same page when the platform refuses native calls. *)
Definition refusing_page : page := Page [] VNull true true.

Definition standard_controller : controller :=
  Controller (findSupported API_LIST (has_property standard_page 0%nat)) 0 4.

Definition legacy_controller : controller := Controller None 0 4.

(** Two six-name bundles, the first with a name at two positions (the
    source's own third bundle), and a document with the standard exit name
    only. *)
Definition repeated_key_list : list (list string) :=
  [ ["webkitRequestFullScreen"; "webkitCancelFullScreen";
     "webkitCurrentFullScreenElement"; "webkitCancelFullScreen";
     "webkitfullscreenchange"; "webkitfullscreenerror"];
    ["requestFullscreen"; "exitFullscreen"; "fullscreenElement";
     "fullscreenEnabled"; "fullscreenchange"; "fullscreenerror"] ].

Definition standard_exit_only (name : string) : bool :=
  bool_decide (name = "exitFullscreen").

(** A document of the old WebKit kind: the third bundle's names only. *)
Definition webkit_legacy_document (name : string) : bool :=
  bool_decide (name ∈ ["webkitRequestFullScreen"; "webkitCancelFullScreen";
                       "webkitCurrentFullScreenElement"]).

(** A page whose document has the standard exit method but no
    current-element property, and the controller created on it. *)
Definition partial_page : page := Page ["exitFullscreen"] VNull false false.

Definition partial_controller : controller :=
  Controller (findSupported API_LIST (has_property partial_page 0%nat)) 0 4.

(** Unfolds the operations of [M] so that a run can be computed. *)
Ltac run :=
  unfold toggle_conditional, toggle, isFullscreen, request, exit,
    onChange, offChange, onError, offError, fields, try_catch, call_method,
    set_activeVideo, gets, throw, mbind, M_bind, mret, M_ret in *;
  simpl in *.

(** * Properties of the resolver *)

Section Resolver.
Implicit Types (apiList : list (list string)) (api standardApi : list string).
Implicit Types (in_document : string → bool) (result : gmap string string).

Lemma obj_set_lookup_ne key key' funcName result :
  key ≠ key' → obj_set key funcName result !! key' = result !! key'.
Proof.
  intros Hne. unfold obj_set. case_decide; [done|].
  by rewrite lookup_insert_ne.
Qed.

Lemma obj_set_lookup_eq key funcName result :
  key ≠ "__proto__" → obj_set key funcName result !! key = Some funcName.
Proof.
  intros Hne. unfold obj_set. case_decide; [done|].
  by rewrite lookup_insert_eq.
Qed.

Lemma obj_set_dom key funcName result :
  dom (obj_set key funcName result) = dom result ∪ ({[key]} ∖ {["__proto__"]}).
Proof.
  unfold obj_set. case_decide as Hk.
  - subst key. set_solver.
  - rewrite dom_insert_L. set_solver.
Qed.

(** The loop returns the bundle at the smallest matching index. *)
Lemma supportedApi_first_match apiList in_document i api :
  apiList !! i = Some api →
  in_document (prop_key (api !! 1%nat)) = true →
  (∀ k api', (k < i)%nat → apiList !! k = Some api' →
             in_document (prop_key (api' !! 1%nat)) = false) →
  supportedApi in_document apiList = Some api.
Proof.
  revert i. induction apiList as [|api0 rest IH]; intros i Hi Hin Hbefore; [done|].
  destruct i as [|i]; simpl in *.
  - injection Hi as ->. by rewrite Hin.
  - rewrite (Hbefore 0%nat api0); [|lia|done].
    apply (IH i); [done..|].
    intros k api' Hk Hlook. apply (Hbefore (S k)); [lia|done].
Qed.

(** The loop finds nothing exactly when no bundle matches. *)
Lemma supportedApi_None apiList in_document :
  supportedApi in_document apiList = None ↔
  Forall (λ api, in_document (prop_key (api !! 1%nat)) = false) apiList.
Proof.
  induction apiList as [|api rest IH]; simpl.
  - split; [constructor|done].
  - destruct (in_document (prop_key (api !! 1%nat))) eqn:Hin.
    + split; [done|]. intros Hall. inversion Hall; congruence.
    + rewrite IH. split; [by constructor|]. intros Hall. by inversion Hall.
Qed.

(** A bundle the loop returns is one of the list, so the list has a
    bundle 0: the inner [None] of [findSupported] is never reached. *)
Lemma supportedApi_Some_head apiList in_document api :
  supportedApi in_document apiList = Some api → is_Some (apiList !! 0%nat).
Proof. destruct apiList; [done|]. simpl. eauto. Qed.

(** Keys written after position [i] that all differ from [key] leave its
    entry as it was. *)
Lemma reduce_from_lookup_other standardApi funcNames i result key :
  (∀ k, (i ≤ k < i + length funcNames)%nat → prop_key (standardApi !! k) ≠ key) →
  reduce_from standardApi i funcNames result !! key = result !! key.
Proof.
  revert i result. induction funcNames as [|f rest IH]; intros i result Hne; [done|].
  simpl in *. rewrite IH.
  - apply obj_set_lookup_ne. apply Hne. lia.
  - intros k Hk. apply Hne. lia.
Qed.

(** The entry of a key is the name at the last position that writes it. *)
Lemma reduce_from_lookup_last standardApi funcNames i result j funcName :
  funcNames !! j = Some funcName →
  prop_key (standardApi !! (i + j)%nat) ≠ "__proto__" →
  (∀ k, (i + j < k < i + length funcNames)%nat →
        prop_key (standardApi !! k) ≠ prop_key (standardApi !! (i + j)%nat)) →
  reduce_from standardApi i funcNames result !! prop_key (standardApi !! (i + j)%nat)
  = Some funcName.
Proof.
  revert i result j.
  induction funcNames as [|f rest IH]; intros i result j Hj Hproto Hlater; [done|].
  destruct j as [|j]; simpl in *.
  - injection Hj as ->. rewrite Nat.add_0_r in *.
    rewrite reduce_from_lookup_other.
    + by apply obj_set_lookup_eq.
    + intros k Hk. apply Hlater. lia.
  - replace (i + S j)%nat with (S i + j)%nat in * by lia.
    apply IH; [done..|]. intros k Hk. apply Hlater. lia.
Qed.

Lemma reduce_from_dom standardApi funcNames i result :
  dom (reduce_from standardApi i funcNames result)
  = dom result ∪
    (list_to_set ((λ k, prop_key (standardApi !! k)) <$> seq i (length funcNames))
     ∖ {["__proto__"]}).
Proof.
  revert i result. induction funcNames as [|f rest IH]; intros i result; simpl.
  - set_solver.
  - rewrite IH, obj_set_dom. set_solver.
Qed.

Lemma prop_key_positions standardApi :
  (λ k, prop_key (standardApi !! k)) <$> seq 0 (length standardApi) = standardApi.
Proof.
  apply list_eq. intros k. rewrite list_lookup_fmap.
  destruct (decide (k < length standardApi)%nat) as [Hlt|Hge].
  - rewrite lookup_seq_lt by done. simpl.
    destruct (lookup_lt_is_Some_2 standardApi k Hlt) as [key Hkey].
    by rewrite Hkey.
  - rewrite lookup_seq_ge by lia. simpl.
    symmetry. apply lookup_ge_None. lia.
Qed.

End Resolver.

(** C1, as the code has it: for a list of six-name bundles in which [i] is
    the smallest index whose exit-method name (entry 1) is a property of the
    document, the loop selects bundle [i] whatever the later bundles are, and
    resolution returns a mapping whose keys are the names of bundle 0 (the
    name [__proto__] apart, which an assignment never stores) and in which
    the name at position [j] of bundle 0 maps to the name at position [j] of
    bundle [i], for every position [j] whose name does not occur again later
    in bundle 0.  With six distinct names in bundle 0 that is every
    position. *)
Theorem findSupported_first_match apiList in_document i :
  Forall (λ api : list string, length api = 6%nat) apiList →
  first_match apiList in_document i →
  ∃ standardApi api mapping,
    apiList !! 0%nat = Some standardApi ∧ apiList !! i = Some api ∧
    supportedApi in_document apiList = Some api ∧
    findSupported apiList in_document = Some mapping ∧
    dom mapping = list_to_set standardApi ∖ {["__proto__"]} ∧
    ∀ j key, standardApi !! j = Some key → key ≠ "__proto__" →
      (∀ k, (j < k)%nat → standardApi !! k ≠ Some key) →
      mapping !! key = api !! j.
Proof.
  intros Hsix [(api & Hi & Hin) Hbefore].
  pose proof (supportedApi_first_match _ _ _ _ Hi Hin Hbefore) as Hloop.
  destruct (supportedApi_Some_head _ _ _ Hloop) as [standardApi H0].
  assert (Hlen0 : length standardApi = 6%nat).
  { eapply (Forall_lookup_1 _ _ _ _ Hsix), H0. }
  assert (Hlen : length api = 6%nat).
  { eapply (Forall_lookup_1 _ _ _ _ Hsix), Hi. }
  exists standardApi, api, (reduce_from standardApi 0 api ∅).
  split_and!; [done..| | |].
  - unfold findSupported. by rewrite Hloop, H0.
  - rewrite reduce_from_dom, Hlen, <- Hlen0, prop_key_positions. set_solver.
  - intros j key Hj Hproto Hlater.
    assert (Hjlt : (j < 6)%nat) by (rewrite <- Hlen0; by eapply lookup_lt_Some).
    destruct (lookup_lt_is_Some_2 api j) as [funcName Hf]; [lia|].
    rewrite Hf.
    pose proof (reduce_from_lookup_last standardApi api 0 ∅ j funcName Hf) as Hlast.
    simpl in Hlast. rewrite Hj in Hlast. simpl in Hlast. apply Hlast; [done|].
    intros k Hk.
    destruct (lookup_lt_is_Some_2 standardApi k) as [key' Hk']; [lia|].
    rewrite Hk'. simpl. intros ->. by apply (Hlater k); [lia|].
Qed.

(** The source's own list on an old WebKit document: the third bundle is
    selected, so [api.requestFullscreen] is [webkitRequestFullScreen]. *)
Lemma findSupported_first_match_witness :
  Forall (λ api : list string, length api = 6%nat) API_LIST ∧
  first_match API_LIST webkit_legacy_document 2 ∧
  ∃ standardApi api mapping,
    API_LIST !! 0%nat = Some standardApi ∧ API_LIST !! 2%nat = Some api ∧
    supportedApi webkit_legacy_document API_LIST = Some api ∧
    findSupported API_LIST webkit_legacy_document = Some mapping ∧
    dom mapping = list_to_set standardApi ∖ {["__proto__"]} ∧
    ∀ j key, standardApi !! j = Some key → key ≠ "__proto__" →
      (∀ k, (j < k)%nat → standardApi !! k ≠ Some key) →
      mapping !! key = api !! j.
Proof.
  assert (Hsix : Forall (λ api : list string, length api = 6%nat) API_LIST).
  { repeat constructor. }
  assert (Hfirst : first_match API_LIST webkit_legacy_document 2).
  { split.
    - eexists. split; reflexivity.
    - intros [|[|k]] api Hk Hlook; [| |lia];
        injection Hlook as <-; reflexivity. }
  exact (conj Hsix (conj Hfirst
    (findSupported_first_match API_LIST webkit_legacy_document 2 Hsix Hfirst))).
Defined.

(** The claim as worded fails when bundle 0 repeats a name: with the
    source's third bundle in front and a document that has the standard exit
    name only, bundle 1 is selected, and the key [webkitCancelFullScreen]
    (positions 1 and 3 of bundle 0) holds [fullscreenEnabled], the name at
    position 3, not [exitFullscreen], the name at position 1. *)
Lemma findSupported_repeated_key_counterexample :
  Forall (λ api : list string, length api = 6%nat) repeated_key_list ∧
  first_match repeated_key_list standard_exit_only 1 ∧
  ¬ resolves_positionwise repeated_key_list standard_exit_only 1.
Proof.
  split_and!.
  - repeat constructor.
  - split.
    + eexists. split; reflexivity.
    + intros [|k] api Hk Hlook; [|lia]. injection Hlook as <-. reflexivity.
  - intros (standardApi & api & mapping & H0 & H1 & _ & Hfind & _ & Hpos).
    injection H0 as <-. injection H1 as <-.
    specialize (Hpos 1%nat "webkitCancelFullScreen" eq_refl).
    assert (Hcode : findSupported repeated_key_list standard_exit_only
                    ≫= (λ m, m !! "webkitCancelFullScreen") = Some "fullscreenEnabled")
      by (vm_compute; reflexivity).
    rewrite Hfind in Hcode. simpl in Hcode, Hpos. congruence.
Qed.

(** C7: when no bundle's exit-method name is a property of the document,
    resolution returns the absent value.  [findSupported] is a total
    function into an option: there is no input on which it raises. *)
Theorem findSupported_no_match apiList in_document :
  Forall (λ api, in_document (prop_key (api !! 1%nat)) = false) apiList →
  findSupported apiList in_document = None.
Proof.
  intros Hnone. unfold findSupported.
  by rewrite (proj2 (supportedApi_None apiList in_document) Hnone).
Qed.

Lemma findSupported_no_match_witness :
  Forall (λ api, has_property legacy_page 0%nat (prop_key (api !! 1%nat)) = false)
         API_LIST ∧
  findSupported API_LIST (has_property legacy_page 0%nat) = None.
Proof.
  assert (Hnone : Forall (λ api, has_property legacy_page 0%nat
                                   (prop_key (api !! 1%nat)) = false) API_LIST).
  { repeat constructor. }
  exact (conj Hnone (findSupported_no_match API_LIST _ Hnone)).
Defined.

(** * Properties of the controller *)

Section ControllerProperties.
Context `{Host}.
Implicit Types (c : controller) (s : state) (t : target).
Implicit Types (el video listener : value) (x : ref).

Lemma truthy_not_nullish v : truthy v = true → nullish v = false.
Proof. by destruct v. Qed.

(** On an element or [null], being truthy is being other than [null]. *)
Lemma truthy_element_or_null v :
  element_or_null v → truthy v = bool_decide (v ≠ VNull).
Proof. by intros [->|[r ->]]. Qed.

(** In legacy mode the current element is the tracked video, and only while
    its native flag reads true; otherwise it is [null]. *)
Lemma element_legacy c s :
  API c = None →
  element c s =
    if truthy (activeVideo s) &&
       truthy (get_property (env s) (activeVideo s) "webkitDisplayingFullscreen")
    then activeVideo s else VNull.
Proof.
  intros Hmode. unfold element, js_and. rewrite Hmode.
  destruct (truthy (activeVideo s)) eqn:Hslot; simpl; [done|].
  by rewrite Hslot.
Qed.

Lemma element_legacy_truthy c s :
  API c = None → truthy (element c s) = bool_decide (element c s ≠ VNull).
Proof.
  intros Hmode. rewrite (element_legacy c s Hmode).
  destruct (truthy (activeVideo s)) eqn:Hslot; simpl; [|done].
  destruct (truthy (get_property _ _ _)); [|done].
  rewrite Hslot. symmetry. apply bool_decide_eq_true. by intros Heq; rewrite Heq in Hslot.
Qed.

(** An absent argument reads as the empty object. *)
Lemma isFullscreen_undefined c :
  isFullscreen c TUndefined = isFullscreen c (TObject VUndefined VUndefined).
Proof. done. Qed.

Lemma request_undefined c :
  request c TUndefined = request c (TObject VUndefined VUndefined).
Proof. done. Qed.

(** [null] as the argument: the field reads throw, nothing else happens. *)
Lemma isFullscreen_null c s : isFullscreen c TNull s = (Throw TypeError, s).
Proof. done. Qed.

Lemma request_null c s : request c TNull s = (Throw TypeError, s).
Proof. done. Qed.

(** The query changes nothing. *)
Lemma isFullscreen_pure c t s : snd (isFullscreen c t s) = s.
Proof. run. destruct t, (API c); done. Qed.

(** ** The slot invariant *)

Lemma createFullscreen_slot_ok apiList doc s c s' :
  createFullscreen apiList doc s = (Normal c, s') →
  activeVideo s' = VNull ∧ API c = findSupported apiList (has_property (env s) doc).
Proof.
  unfold createFullscreen. destruct (createElement _ _ _) as [[tv|e] w]; [|done].
  intros [= <- <-]. done.
Qed.

Lemma request_slot_ok c t s : slot_ok s → slot_ok (snd (request c t s)).
Proof.
  intros Hok. destruct t as [| |el video]; [rewrite request_undefined|done|];
    run; destruct (API c) as [api|].
  all: try (destruct (nullish _); [done|]; by destruct (invoke _ _ _ _)).
  - done.
  - destruct (truthy video) eqn:Hvideo; [|done].
    rewrite (truthy_not_nullish _ Hvideo).
    destruct (invoke _ _ _ _) as [[r|e] w]; simpl; [by right|by left].
Qed.

Lemma exit_slot_ok c s : slot_ok s → slot_ok (snd (exit c s)).
Proof.
  intros Hok. run. destruct (API c) as [api|].
  - by destruct (invoke _ _ _ _).
  - destruct (truthy (activeVideo s)); [by left|done].
Qed.

Lemma toggle_slot_ok c t s : slot_ok s → slot_ok (snd (toggle c t s)).
Proof.
  intros Hok. unfold toggle, mbind, M_bind.
  pose proof (isFullscreen_pure c t s) as Hpure.
  destruct (isFullscreen c t s) as [[b|e] s0]; simpl in Hpure; subst s0; [|done].
  destruct b.
  - pose proof (exit_slot_ok c s Hok) as Hexit.
    by destruct (exit c s) as [[r|e] s1].
  - pose proof (request_slot_ok c t s Hok) as Hrequest.
    by destruct (request c t s) as [[r|e] s1].
Qed.

End ControllerProperties.

Section ControllerOperations.
Context `{Host}.
Implicit Types (c : controller) (s : state) (t : target).
Implicit Types (el video listener : value) (x : ref).

(** C2: in legacy mode, [exit()] on a slot that holds a video (a non-null
    slot: by [request_slot_ok] the slot is [null] or passed the guard of
    [request]) clears the slot before the native exit call is attempted; the
    call is then made on the slot's new value, [null], which throws a
    [TypeError] before anything reaches the host (first equation: the body
    of the [try]), and the failure is swallowed.  So [exit()] completes
    normally, the slot is [null], and neither the world nor the list of
    calls on the host has changed: the video's native exit is never
    invoked. *)
Theorem exit_legacy_clears_slot c s :
  API c = None →
  activeVideo s ≠ VNull →
  slot_ok s →
  (set_activeVideo VNull;;
   gets activeVideo ≫= λ v, call_method v "webkitExitFullscreen" []) s
  = (Throw TypeError, State (env s) VNull (calls s)) ∧
  exit c s = (Normal VUndefined, State (env s) VNull (calls s)).
Proof.
  intros Hmode Hslot [Hnull|Htruthy]; [done|].
  run. by rewrite Hmode, Htruthy.
Qed.

(** C3: in legacy mode, [request({video: V})] sets the slot to [V] and then
    makes the video's native enter call.  When the call returns, its result
    is returned and the slot holds [V]; when it throws, the slot is rolled
    back to [null] and the operation completes normally with [undefined]. *)
Theorem request_legacy_rollback c s el video r w :
  API c = None →
  truthy video = true →
  invoke (env s) video "webkitEnterFullscreen" [] = (r, w) →
  request c (TObject el video) s =
    match r with
    | Normal result =>
        (Normal result,
         State w video (calls s ++ [Call video "webkitEnterFullscreen" []])%list)
    | Throw _ =>
        (Normal VUndefined,
         State w VNull (calls s ++ [Call video "webkitEnterFullscreen" []])%list)
    end.
Proof.
  intros Hmode Hvideo Hcall. run.
  rewrite Hmode, Hvideo, (truthy_not_nullish _ Hvideo), Hcall.
  by destruct r.
Qed.

(** C4: the enabled query is the logical OR of the standard-path capability
    (a mapping is present and the document reports the resolved
    enabled-property as truthy) and the legacy-path capability (the probe
    video has the legacy entry point); without a mapping it is the video
    test alone. *)
Theorem enabled_is_or c s :
  enabled c s = standard_capability c s || legacy_capability c s ∧
  enabled (Controller None (document c) (TEST_VIDEO c)) s = legacy_capability c s.
Proof.
  unfold enabled, standard_capability, legacy_capability, js_or. simpl. split; [|done].
  destruct (API c) as [api|]; [|done].
  by destruct (truthy (get_property _ (VObject (document c)) _)) eqn:Hstd.
Qed.

(** C5, as the code has it.  In standard mode the current element is the
    document's resolved current-element property; [isFullscreen({el: X})]
    is true iff the element [X] is the current element, and
    [isFullscreen()] is true iff the current element is truthy
    ([Boolean(element)]: false for [undefined] as for [null]).  In legacy
    mode the current element is the tracked video while its native flag
    [webkitDisplayingFullscreen] reads truthy, and [null] otherwise;
    [isFullscreen({video: V})] is true iff the video [V] is the current
    element, and [isFullscreen()] is true iff the current element is not
    [null].  The query changes no state. *)
Theorem isFullscreen_iff c s x el video :
  match API c with
  | Some api =>
      element c s
        = get_property (env s) (VObject (document c))
            (prop_key (api !! "fullscreenElement")) ∧
      isFullscreen c (TObject (VObject x) video) s
        = (Normal (bool_decide (element c s = VObject x)), s) ∧
      isFullscreen c TUndefined s = (Normal (truthy (element c s)), s)
  | None =>
      element c s
        = (if truthy (activeVideo s) &&
              truthy (get_property (env s) (activeVideo s) "webkitDisplayingFullscreen")
           then activeVideo s else VNull) ∧
      isFullscreen c (TObject el (VObject x)) s
        = (Normal (bool_decide (element c s = VObject x)), s) ∧
      isFullscreen c TUndefined s = (Normal (bool_decide (element c s ≠ VNull)), s)
  end.
Proof.
  destruct (API c) as [api|] eqn:Hmode.
  - split_and!.
    + unfold element. by rewrite Hmode.
    + run. rewrite Hmode. unfold strict_equal. do 2 f_equal.
      apply bool_decide_ext. split; congruence.
    + run. by rewrite Hmode.
  - split_and!.
    + by apply element_legacy.
    + run. rewrite Hmode. unfold strict_equal. do 2 f_equal.
      apply bool_decide_ext. split; congruence.
    + run. rewrite Hmode. do 2 f_equal. by apply element_legacy_truthy.
Qed.

(** C6: in both modes and for every argument, [toggle(target)] changes the
    state and calls the host exactly as the conditional
    [isFullscreen(target) ? exit() : request(target)] does, and throws
    exactly when it throws; [toggle] itself returns [undefined]. *)
Theorem toggle_conditional_equiv c t s :
  toggle c t s =
    (match fst (toggle_conditional c t s) with
     | Normal _ => Normal VUndefined
     | Throw e => Throw e
     end,
     snd (toggle_conditional c t s)).
Proof.
  unfold toggle, toggle_conditional, mbind, M_bind.
  destruct (isFullscreen c t s) as [[[|]|e] s0]; [| |done].
  - by destruct (exit c s0) as [[r|e] s1].
  - by destruct (request c t s0) as [[r|e] s1].
Qed.

(** C8: in standard mode [request({el})] calls the resolved request-method
    on [el], or on the document's root element when [el] is absent, and
    hands back the call's completion as it is: the value it returns, or the
    failure it throws.  The slot is left alone. *)
Theorem request_standard_forwards c api el video s r w :
  API c = Some api →
  let recv := js_or el (get_property (env s) (VObject (document c)) "documentElement") in
  let name := prop_key (api !! "requestFullscreen") in
  nullish recv = false →
  invoke (env s) recv name [] = (r, w) →
  request c (TObject el video) s
  = (r, State w (activeVideo s) (calls s ++ [Call recv name []])%list).
Proof.
  intros Hmode recv name Hrecv Hcall. run. rewrite Hmode. simpl.
  fold recv name. by rewrite Hrecv, Hcall.
Qed.

(** C9: in legacy mode the four subscription operations are no-ops: each
    returns [undefined], registers or unregisters nothing on the host, and
    leaves the whole state as it was. *)
Theorem listeners_legacy_noop c listener s :
  API c = None →
  onChange c listener s = (Normal VUndefined, s) ∧
  offChange c listener s = (Normal VUndefined, s) ∧
  onError c listener s = (Normal VUndefined, s) ∧
  offError c listener s = (Normal VUndefined, s).
Proof. intros Hmode. run. by rewrite Hmode. Qed.

(** C10: in legacy mode an operation whose guard is unmet is a silent
    no-op that returns [undefined]: [request] without a video (a missing or
    falsy [video] field, or no argument) calls nothing and leaves the slot
    as it was, and [exit] on a [null] slot calls nothing and leaves the slot
    [null]; neither throws. *)
Theorem legacy_guard_unmet c s s' el video :
  API c = None →
  truthy video = false →
  activeVideo s' = VNull →
  request c (TObject el video) s = (Normal VUndefined, s) ∧
  request c TUndefined s = (Normal VUndefined, s) ∧
  exit c s' = (Normal VUndefined, s').
Proof.
  intros Hmode Hvideo Hslot. run. by rewrite Hmode, Hvideo, Hslot.
Qed.

End ControllerOperations.

(** * The operations on the small host *)

Lemma exit_legacy_clears_slot_witness :
  API legacy_controller = None ∧
  VObject 5 ≠ VNull ∧
  slot_ok (State legacy_page (VObject 5) []) ∧
  exit legacy_controller (State legacy_page (VObject 5) [])
  = (Normal VUndefined, State legacy_page VNull []).
Proof.
  assert (Hslot : VObject 5 ≠ VNull) by discriminate.
  assert (Hok : slot_ok (State legacy_page (VObject 5) [])) by (right; reflexivity).
  exact (conj eq_refl (conj Hslot (conj Hok
    (proj2 (exit_legacy_clears_slot legacy_controller
              (State legacy_page (VObject 5) []) eq_refl Hslot Hok))))).
Defined.

Lemma request_legacy_rollback_witness :
  API legacy_controller = None ∧
  truthy (VObject 5) = true ∧
  invoke refusing_page (VObject 5) "webkitEnterFullscreen" []
  = (Throw (Thrown (VString "NotAllowedError")), refusing_page) ∧
  request legacy_controller (TObject VUndefined (VObject 5)) (State refusing_page VNull [])
  = (Normal VUndefined,
     State refusing_page VNull [Call (VObject 5) "webkitEnterFullscreen" []]).
Proof.
  exact (conj eq_refl (conj eq_refl (conj eq_refl
    (request_legacy_rollback legacy_controller (State refusing_page VNull [])
       VUndefined (VObject 5) _ _ eq_refl eq_refl eq_refl)))).
Defined.

(** A standard page showing element 1 and a legacy page showing the
    tracked video 5; on the legacy page a video whose flag reads false is
    not the current element although it holds the slot. *)
Lemma isFullscreen_iff_witness :
  let s := State (Page (names standard_page) (VObject 1) false false) VNull [] in
  let s' := State (Page [] (VObject 5) true false) (VObject 5) [] in
  let s'' := State (Page [] VNull true false) (VObject 5) [] in
  (element standard_controller s = VObject 1 ∧
   isFullscreen standard_controller (TObject (VObject 1) VUndefined) s = (Normal true, s) ∧
   isFullscreen standard_controller TUndefined s = (Normal true, s)) ∧
  (element legacy_controller s' = VObject 5 ∧
   isFullscreen legacy_controller (TObject VUndefined (VObject 5)) s' = (Normal true, s') ∧
   isFullscreen legacy_controller TUndefined s' = (Normal true, s')) ∧
  (element legacy_controller s'' = VNull ∧
   isFullscreen legacy_controller (TObject VUndefined (VObject 5)) s''
   = (Normal false, s'') ∧
   isFullscreen legacy_controller TUndefined s'' = (Normal false, s'')).
Proof.
  intros s s' s''.
  pose proof (isFullscreen_iff standard_controller s 1 VUndefined VUndefined) as Hstandard.
  pose proof (isFullscreen_iff legacy_controller s' 5 VUndefined VUndefined) as Hlegacy.
  pose proof (isFullscreen_iff legacy_controller s'' 5 VUndefined VUndefined) as Hstale.
  change (API standard_controller) with (Some (default ∅ (API standard_controller)))
    in Hstandard.
  simpl in Hlegacy, Hstale.
  exact (conj Hstandard (conj Hlegacy Hstale)).
Defined.

(** The claim as worded fails in standard mode when the document has no
    current-element property: the current element is [undefined], which is
    not [null], and [isFullscreen()] is false. *)
Lemma isFullscreen_undefined_element_counterexample :
  let s := State partial_page VNull [] in
  is_Some (API partial_controller) ∧
  element partial_controller s = VUndefined ∧
  element partial_controller s ≠ VNull ∧
  isFullscreen partial_controller TUndefined s = (Normal false, s) ∧
  ¬ (isFullscreen partial_controller TUndefined s
     = (Normal (bool_decide (element partial_controller s ≠ VNull)), s)).
Proof.
  intros s.
  assert (Helement : element partial_controller s = VUndefined) by reflexivity.
  assert (Hrun : isFullscreen partial_controller TUndefined s = (Normal false, s))
    by reflexivity.
  split_and!; [|done| | done |].
  - exists (default ∅ (API partial_controller)). vm_compute. reflexivity.
  - by rewrite Helement.
  - rewrite Hrun, Helement. simpl. intros [=].
Qed.

Lemma request_standard_forwards_witness :
  let api := default ∅ (API standard_controller) in
  let root := get_property standard_page (VObject 0) "documentElement" in
  API standard_controller = Some api ∧
  api !! "requestFullscreen" = Some "requestFullscreen" ∧
  nullish (js_or VUndefined root) = false ∧
  invoke standard_page (VObject 1) "requestFullscreen" []
  = (Normal (VObject 3), Page (names standard_page) (VObject 1) false false) ∧
  request standard_controller (TObject VUndefined VUndefined) (State standard_page VNull [])
  = (Normal (VObject 3),
     State (Page (names standard_page) (VObject 1) false false) VNull
       [Call (VObject 1) "requestFullscreen" []]).
Proof.
  intros api root.
  assert (Hmode : API standard_controller = Some api) by (vm_compute; reflexivity).
  assert (Hname : api !! "requestFullscreen" = Some "requestFullscreen")
    by (vm_compute; reflexivity).
  assert (Hcall : invoke standard_page (VObject 1) "requestFullscreen" []
                  = (Normal (VObject 3),
                     Page (names standard_page) (VObject 1) false false))
    by reflexivity.
  refine (conj Hmode (conj Hname (conj eq_refl (conj Hcall _)))).
  pose proof (request_standard_forwards standard_controller api VUndefined VUndefined
                (State standard_page VNull []) (Normal (VObject 3))
                (Page (names standard_page) (VObject 1) false false)
                Hmode eq_refl) as Hrun.
  simpl in Hrun. rewrite Hname in Hrun. exact (Hrun Hcall).
Defined.

Lemma listeners_legacy_noop_witness :
  API legacy_controller = None ∧
  onChange legacy_controller (VObject 6) (State legacy_page VNull [])
  = (Normal VUndefined, State legacy_page VNull []).
Proof.
  exact (conj eq_refl (proj1 (listeners_legacy_noop legacy_controller (VObject 6)
                                (State legacy_page VNull []) eq_refl))).
Defined.

Lemma legacy_guard_unmet_witness :
  API legacy_controller = None ∧
  truthy VUndefined = false ∧
  activeVideo (State legacy_page VNull []) = VNull ∧
  request legacy_controller (TObject (VObject 1) VUndefined)
    (State legacy_page (VObject 5) [])
  = (Normal VUndefined, State legacy_page (VObject 5) []) ∧
  request legacy_controller TUndefined (State legacy_page (VObject 5) [])
  = (Normal VUndefined, State legacy_page (VObject 5) []) ∧
  exit legacy_controller (State legacy_page VNull [])
  = (Normal VUndefined, State legacy_page VNull []).
Proof.
  exact (conj eq_refl (conj eq_refl (conj eq_refl
    (legacy_guard_unmet legacy_controller (State legacy_page (VObject 5) [])
       (State legacy_page VNull []) (VObject 1) VUndefined eq_refl eq_refl eq_refl)))).
Defined.

(** ** Scenarios *)

(** An old WebKit document resolves to the third bundle. *)
Example scenario_webkit_legacy :
  findSupported API_LIST webkit_legacy_document ≫= (λ api, api !! "requestFullscreen")
  = Some "webkitRequestFullScreen".
Proof. vm_compute. reflexivity. Qed.

(** No fullscreen API on the document, but videos with the legacy entry
    point: the controller is created in legacy mode and reports enabled. *)
Example scenario_legacy_only :
  ∃ c s, createFullscreen API_LIST 0 (State legacy_page (VObject 5) []) = (Normal c, s) ∧
         API c = None ∧ activeVideo s = VNull ∧ enabled c s = true.
Proof. eexists _, _. split; [reflexivity|]. split_and!; reflexivity. Qed.

(** [request({el: body})] with the standard names calls
    [body.requestFullscreen()] and returns what it returns. *)
Example scenario_request_body :
  request standard_controller (TObject (VObject 8) VUndefined) (State standard_page VNull [])
  = (Normal (VObject 3),
     State (Page (names standard_page) (VObject 8) false false) VNull
       [Call (VObject 8) "requestFullscreen" []]).
Proof. vm_compute. reflexivity. Qed.

(** A name [__proto__] in bundle 0 is not a key of the mapping. *)
Example scenario_proto_key :
  dom <$> findSupported [["a"; "b"; "__proto__"; "d"; "e"; "f"]] (λ _, true)
  = Some ({["a"; "b"; "d"; "e"; "f"]} : gset string).
Proof. vm_compute. reflexivity. Qed.

(** Legacy mode, request then exit: the slot is cleared, but the only call
    that reached the host is the enter call, and the page still shows the
    video in fullscreen. *)
Example legacy_exit_leaves_video_fullscreen :
  (request legacy_controller (TObject VUndefined (VObject 5));; exit legacy_controller)
    (State legacy_page VNull [])
  = (Normal VUndefined,
     State (Page [] (VObject 5) true false) VNull
       [Call (VObject 5) "webkitEnterFullscreen" []]).
Proof. vm_compute. reflexivity. Qed.

(** * Further properties of the controller *)

Section Effects.
Context `{Host}.
Implicit Types (c : controller) (s : state) (t : target) (op : operation).
Implicit Types (el video listener : value) (es : list event).

(** What one [request] can do to the state, by mode. *)
Lemma request_effect c t s :
  match API c with
  | Some _ =>
      activeVideo (snd (request c t s)) = activeVideo s ∧
      (calls (snd (request c t s)) = calls s ∨
       ∃ k, calls (snd (request c t s)) = (calls s ++ [k])%list)
  | None =>
      snd (request c t s) = s ∨
      ∃ video, truthy video = true ∧
        calls (snd (request c t s)) = (calls s ++ [enter_call video])%list ∧
        (activeVideo (snd (request c t s)) = video ∨
         activeVideo (snd (request c t s)) = VNull)
  end.
Proof.
  destruct t as [| |el video]; [rewrite request_undefined| |]; run;
    destruct (API c) as [api|]; simpl; eauto.
  - destruct (nullish _); simpl; [by eauto|].
    destruct (invoke _ _ _ _) as [r w]; simpl. eauto.
  - destruct (nullish _); simpl; [by eauto|].
    destruct (invoke _ _ _ _) as [r w]; simpl. eauto.
  - destruct (truthy video) eqn:Hvideo; simpl; [|by left].
    rewrite (truthy_not_nullish _ Hvideo).
    destruct (invoke _ _ _ _) as [[r|e] w]; simpl; right; exists video; eauto.
Qed.

(** What one [exit] can do to the state, by mode. *)
Lemma exit_effect c s :
  match API c with
  | Some _ =>
      activeVideo (snd (exit c s)) = activeVideo s ∧
      ∃ k, calls (snd (exit c s)) = (calls s ++ [k])%list
  | None =>
      snd (exit c s) = s ∨ snd (exit c s) = State (env s) VNull (calls s)
  end.
Proof.
  run. destruct (API c) as [api|]; simpl.
  - destruct (invoke _ _ _ _) as [r w]; simpl. eauto.
  - destruct (truthy (activeVideo s)); simpl; eauto.
Qed.

(** [toggle] ends where it started, where [exit] ends or where [request]
    ends. *)
Lemma toggle_state c t s :
  snd (toggle c t s) = s ∨ snd (toggle c t s) = snd (exit c s) ∨
  snd (toggle c t s) = snd (request c t s).
Proof.
  unfold toggle, mbind, M_bind.
  pose proof (isFullscreen_pure c t s) as Hpure.
  destruct (isFullscreen c t s) as [[[|]|e] s0]; simpl in Hpure; subst s0; simpl.
  - right; left. by destruct (exit c s) as [[r|e] s1].
  - right; right. by destruct (request c t s) as [[r|e] s1].
  - by left.
Qed.

(** What one subscription operation can do to the state, by mode. *)
Lemma listener_effect c op listener s :
  op = OnChange listener ∨ op = OffChange listener ∨
  op = OnError listener ∨ op = OffError listener →
  match API c with
  | Some _ =>
      activeVideo (snd (perform c op s)) = activeVideo s ∧
      ∃ k, calls (snd (perform c op s)) = (calls s ++ [k])%list
  | None => snd (perform c op s) = s
  end.
Proof.
  intros [-> | [-> | [-> | ->]]]; unfold perform; run;
    destruct (API c) as [api|]; simpl; try done;
    destruct (invoke _ _ _ _) as [[r|e] w]; simpl; eauto.
Qed.

(** What one operation can do to the state, by mode: in standard mode the
    slot is kept and at most one call is made; in legacy mode either
    nothing changes, or the slot is cleared, or one native enter call is
    made on a video that holds the slot afterwards unless the slot is
    [null]. *)
Lemma perform_effect c op s :
  match API c with
  | Some _ =>
      activeVideo (snd (perform c op s)) = activeVideo s ∧
      (calls (snd (perform c op s)) = calls s ∨
       ∃ k, calls (snd (perform c op s)) = (calls s ++ [k])%list)
  | None =>
      snd (perform c op s) = s ∨
      snd (perform c op s) = State (env s) VNull (calls s) ∨
      ∃ video, truthy video = true ∧
        calls (snd (perform c op s)) = (calls s ++ [enter_call video])%list ∧
        (activeVideo (snd (perform c op s)) = video ∨
         activeVideo (snd (perform c op s)) = VNull)
  end.
Proof.
  pose proof (exit_effect c s) as Hexit.
  destruct op as [t|t| |t|l|l|l|l].
  - assert (Hpure : snd (perform c (IsFullscreen t) s) = s).
    { pose proof (isFullscreen_pure c t s) as Hpure. unfold perform, mbind, M_bind.
      by destruct (isFullscreen c t s) as [[b|e] s0]. }
    rewrite Hpure. destruct (API c); eauto.
  - pose proof (request_effect c t s) as Hrequest. simpl.
    destruct (API c); [done|]. destruct Hrequest; eauto.
  - simpl. destruct (API c); [|destruct Hexit; eauto].
    destruct Hexit as [Hslot Hcalls]. eauto.
  - pose proof (request_effect c t s) as Hrequest. simpl.
    destruct (toggle_state c t s) as [-> | [-> | ->]].
    + destruct (API c); eauto.
    + destruct (API c); [|destruct Hexit; eauto].
      destruct Hexit as [Hslot Hcalls]. eauto.
    + destruct (API c); [done|]. destruct Hrequest; eauto.
  - pose proof (listener_effect c (OnChange l) l s) as Heffect.
    destruct (API c); [|left; eauto]. destruct Heffect as [Hslot Hcalls]; eauto.
  - pose proof (listener_effect c (OffChange l) l s) as Heffect.
    destruct (API c); [|left; eauto]. destruct Heffect as [Hslot Hcalls]; eauto.
  - pose proof (listener_effect c (OnError l) l s) as Heffect.
    destruct (API c); [|left; eauto]. destruct Heffect as [Hslot Hcalls]; eauto.
  - pose proof (listener_effect c (OffError l) l s) as Heffect.
    destruct (API c); [|left; eauto]. destruct Heffect as [Hslot Hcalls]; eauto.
Qed.

Lemma session_cons c e es s : session c (e :: es) s = session c es (after c s e).
Proof. done. Qed.

End Effects.

Section Sessions.
Context `{Host}.
Implicit Types (c : controller) (s : state) (t : target) (op : operation).
Implicit Types (el video listener : value) (es : list event).

Lemma after_slot_entered c s e : slot_entered s → slot_entered (after c s e).
Proof.
  intros Hinv. destruct e as [op|w]; [|done]. simpl.
  pose proof (perform_effect c op s) as Heffect.
  destruct (API c) as [api|].
  - destruct Heffect as [Hslot Hcalls]. unfold slot_entered. rewrite Hslot.
    destruct Hinv as [Hnull|[Htruthy Hin]]; [by left|right]. split; [done|].
    destruct Hcalls as [->|[k ->]]; set_solver.
  - destruct Heffect as [->|[->|(video & Hvideo & Hcalls & [Hslot|Hslot])]];
      [done|by left| |by left].
    right. rewrite Hslot, Hcalls. split; [done|set_solver].
Qed.

(** X1: whatever the page does with the controller, and however the host
    changes in between, the slot holds [null] or a video that passed the
    guard of [request] and on which the native enter call was made. *)
Theorem session_slot_entered c es s :
  slot_entered s → slot_entered (session c es s).
Proof.
  revert s. induction es as [|e es IH]; intros s Hinv; [done|].
  rewrite session_cons. apply IH. by apply after_slot_entered.
Qed.

(** X2: a controller in standard mode never writes the slot: after any
    session it holds what it held before. *)
Theorem session_standard_keeps_slot c es s :
  is_Some (API c) → activeVideo (session c es s) = activeVideo s.
Proof.
  intros [api Hmode]. revert s. induction es as [|e es IH]; intros s; [done|].
  rewrite session_cons, IH. destruct e as [op|w]; [|done]. simpl.
  pose proof (perform_effect c op s) as Heffect. rewrite Hmode in Heffect.
  by destruct Heffect.
Qed.

(** X3: a controller in legacy mode calls nothing on the host but the
    native enter method of videos that passed the guard: no session ever
    calls a native exit method or registers a listener. *)
Theorem session_legacy_calls c es s :
  API c = None →
  ∃ made, calls (session c es s) = (calls s ++ made)%list ∧
          Forall (λ k, truthy (receiver k) = true ∧
                       method k = "webkitEnterFullscreen" ∧ args k = []) made.
Proof.
  intros Hmode. revert s. induction es as [|e es IH]; intros s.
  - exists []. by rewrite app_nil_r.
  - rewrite session_cons. destruct (IH (after c s e)) as (made & -> & Hmade).
    destruct e as [op|w]; [|by exists made]. simpl.
    pose proof (perform_effect c op s) as Heffect. rewrite Hmode in Heffect.
    destruct Heffect as [->|[->|(video & Hvideo & -> & _)]];
      [by exists made..|].
    exists (enter_call video :: made). rewrite <- app_assoc. split; [done|].
    by constructor.
Qed.

(** X4: in both modes an operation calls the host at most once, and
    nothing is ever removed from the calls made: after a session the calls
    are the earlier ones followed by at most one per event. *)
Theorem session_one_call_per_operation c es s :
  ∃ made, calls (session c es s) = (calls s ++ made)%list ∧
          (length made ≤ length es)%nat.
Proof.
  revert s. induction es as [|e es IH]; intros s.
  - exists []. by rewrite app_nil_r.
  - rewrite session_cons. destruct (IH (after c s e)) as (made & -> & Hlen).
    destruct e as [op|w]; [|exists made; split; [done|simpl; lia]]. simpl.
    pose proof (perform_effect c op s) as Heffect.
    destruct (API c) as [api|].
    + destruct Heffect as [_ [->|[k ->]]].
      * exists made. split; [done|lia].
      * exists (k :: made). rewrite <- app_assoc. split; [done|simpl; lia].
    + destruct Heffect as [->|[->|(video & _ & -> & _)]].
      * exists made. split; [done|lia].
      * exists made. split; [done|lia].
      * exists (enter_call video :: made). rewrite <- app_assoc.
        split; [done|simpl; lia].
Qed.

End Sessions.

Section MoreOperations.
Context `{Host}.
Implicit Types (c : controller) (s : state) (t : target).
Implicit Types (el video listener : value).

(** X5: in standard mode [exit()] calls the resolved exit-method on the
    document, once and without arguments, and hands back the call's
    completion as it is, returned value or thrown failure; the slot is
    left alone. *)
Theorem exit_standard_forwards c api s r w :
  API c = Some api →
  invoke (env s) (VObject (document c)) (prop_key (api !! "exitFullscreen")) [] = (r, w) →
  exit c s
  = (r, State w (activeVideo s)
          (calls s ++ [Call (VObject (document c))
                         (prop_key (api !! "exitFullscreen")) []])%list).
Proof. intros Hmode Hcall. run. by rewrite Hmode, Hcall. Qed.

(** X6: in standard mode each subscription operation makes one call on the
    document, [addEventListener] or [removeEventListener], with the
    resolved change or error event name, the listener and [false]; what
    the call returns is dropped ([undefined] is returned), what it throws
    reaches the caller. *)
Theorem listeners_standard_register c api listener s :
  API c = Some api →
  let registered (method event : string) :=
    let k := Call (VObject (document c)) method
               [api_get api event; listener; VBool false] in
    (match fst (invoke (env s) (receiver k) method (args k)) with
     | Normal _ => Normal VUndefined
     | Throw e => Throw e
     end,
     State (snd (invoke (env s) (receiver k) method (args k)))
       (activeVideo s) (calls s ++ [k])%list) in
  onChange c listener s = registered "addEventListener" "fullscreenchange" ∧
  offChange c listener s = registered "removeEventListener" "fullscreenchange" ∧
  onError c listener s = registered "addEventListener" "fullscreenerror" ∧
  offError c listener s = registered "removeEventListener" "fullscreenerror".
Proof.
  intros Hmode registered. unfold registered. run. rewrite Hmode.
  split_and!; by destruct (invoke _ _ _ _) as [[r|e] w].
Qed.

(** X7: legacy mode, after a [request({video: V})] whose native call
    returned: [element] is [V] if [V]'s native fullscreen flag reads true
    in the world the call left, and [null] otherwise. *)
Theorem request_legacy_then_element c s el video result w :
  API c = None →
  truthy video = true →
  invoke (env s) video "webkitEnterFullscreen" [] = (Normal result, w) →
  element c (snd (request c (TObject el video) s))
  = if truthy (get_property w video "webkitDisplayingFullscreen")
    then video else VNull.
Proof.
  intros Hmode Hvideo Hcall. rewrite (element_legacy _ _ Hmode). run.
  rewrite Hmode, Hvideo, (truthy_not_nullish _ Hvideo), Hcall. simpl.
  by rewrite Hvideo.
Qed.

(** X8: legacy mode, a second request while a video holds the slot: the
    slot is overwritten with the new video and the only calls made are the
    two enter calls; the first video is not exited. *)
Theorem request_legacy_replaces c s el el' video video' result w result' w' :
  API c = None →
  truthy video = true →
  truthy video' = true →
  invoke (env s) video "webkitEnterFullscreen" [] = (Normal result, w) →
  invoke w video' "webkitEnterFullscreen" [] = (Normal result', w') →
  (request c (TObject el video);; request c (TObject el' video')) s
  = (Normal result',
     State w' video' (calls s ++ [enter_call video; enter_call video'])%list).
Proof.
  intros Hmode Hvideo Hvideo' Hcall Hcall'. run.
  rewrite Hmode, Hvideo, Hvideo', (truthy_not_nullish _ Hvideo),
    (truthy_not_nullish _ Hvideo'), Hcall. simpl.
  by rewrite Hcall', <- app_assoc.
Qed.


(** X10: with [null] as the argument, [isFullscreen], [request] and
    [toggle] throw a [TypeError] in both modes (the default [{}] replaces
    [undefined] only), before anything is called or changed. *)
Theorem null_argument_throws c s :
  isFullscreen c TNull s = (Throw TypeError, s) ∧
  request c TNull s = (Throw TypeError, s) ∧
  toggle c TNull s = (Throw TypeError, s).
Proof. done. Qed.

(** X11: legacy mode, [toggle({video: V})] while [V] holds the slot and
    its native flag reads true: the slot is cleared and nothing reaches
    the host, so the video stays in fullscreen while the controller now
    answers that nothing is. *)
Theorem toggle_legacy_leaves_fullscreen c s el video :
  API c = None →
  activeVideo s = video →
  truthy video = true →
  truthy (get_property (env s) video "webkitDisplayingFullscreen") = true →
  toggle c (TObject el video) s = (Normal VUndefined, State (env s) VNull (calls s)) ∧
  element c (State (env s) VNull (calls s)) = VNull ∧
  isFullscreen c (TObject el video) (State (env s) VNull (calls s))
  = (Normal false, State (env s) VNull (calls s)).
Proof.
  intros Hmode <- Hvideo Hflag.
  assert (Hbefore : element c s = activeVideo s).
  { by rewrite (element_legacy _ _ Hmode), Hvideo, Hflag. }
  assert (Hafter : element c (State (env s) VNull (calls s)) = VNull).
  { by rewrite (element_legacy _ _ Hmode). }
  split_and!; [|done|].
  - unfold toggle, isFullscreen, mbind, M_bind, fields, gets, mret, M_ret.
    rewrite Hmode, Hvideo, Hbefore. unfold strict_equal.
    rewrite bool_decide_eq_true_2 by done.
    unfold exit, mbind, M_bind, gets, try_catch, set_activeVideo, call_method.
    by rewrite Hmode, Hvideo.
  - unfold isFullscreen, mbind, M_bind, fields, gets, mret, M_ret.
    rewrite Hmode, Hvideo, Hafter. unfold strict_equal.
    rewrite bool_decide_eq_false_2; [done|].
    intros Heq. by rewrite Heq in Hvideo.
Qed.

(** X12: [createFullscreen] makes one call, [createElement('video')] on the
    document; when it returns, the controller is in legacy mode exactly
    when no bundle's exit-method name is a property of the document at
    that moment, its slot is [null], and it keeps the document and the new
    video as its probe. *)
Theorem createFullscreen_mode apiList doc s c s' :
  createFullscreen apiList doc s = (Normal c, s') →
  (API c = None ↔
   Forall (λ api, has_property (env s) doc (prop_key (api !! 1%nat)) = false) apiList) ∧
  document c = doc ∧
  createElement (env s) doc "video" = (Normal (TEST_VIDEO c), env s') ∧
  activeVideo s' = VNull ∧
  calls s' = (calls s ++ [Call (VObject doc) "createElement" [VString "video"]])%list.
Proof.
  unfold createFullscreen.
  destruct (createElement _ _ _) as [[tv|e] w] eqn:Hcreate; [|done].
  intros [= <- <-]. simpl. split_and!; try done.
  rewrite <- supportedApi_None. unfold findSupported.
  destruct (supportedApi _ apiList) as [api|] eqn:Hloop; [|done].
  destruct (supportedApi_Some_head _ _ _ Hloop) as [standardApi ->].
  split; intros; done.
Qed.

End MoreOperations.

(** * Further properties of the resolver *)

(** A bundle the loop returns sits at the smallest matching index. *)
Lemma supportedApi_Some_first (apiList : list (list string))
    (in_document : string → bool) (api : list string) :
  supportedApi in_document apiList = Some api →
  ∃ i, apiList !! i = Some api ∧ first_match apiList in_document i.
Proof.
  induction apiList as [|api0 rest IH]; [done|]. simpl.
  destruct (in_document (prop_key (api0 !! 1%nat))) eqn:Hin.
  - intros [= <-]. exists 0%nat. split; [done|]. split; [by exists api0|].
    intros k api' Hk. lia.
  - intros Hloop. destruct (IH Hloop) as (i & Hi & (api' & Hi' & Hin') & Hbefore).
    exists (S i). split; [done|]. split; [by exists api'|].
    intros [|k] api'' Hk Hlook; simpl in Hlook.
    + by injection Hlook as <-.
    + apply (Hbefore k); [lia|done].
Qed.

(** With distinct names in bundle 0, none of them [__proto__], the object
    built by [reduce] is the pairing of the two bundles. *)
Lemma reduce_from_zip (standardApi api : list string) :
  NoDup standardApi → "__proto__" ∉ standardApi →
  length api = length standardApi →
  reduce_from standardApi 0 api ∅ = list_to_map (zip standardApi api).
Proof.
  intros Hnodup Hproto Hlen. apply map_eq. intros key.
  destruct (decide (key ∈ standardApi)) as [Hin|Hnotin].
  - apply list_elem_of_lookup in Hin as [j Hj].
    destruct (lookup_lt_is_Some_2 api j) as [funcName Hf].
    { rewrite Hlen. by eapply lookup_lt_Some. }
    pose proof (reduce_from_lookup_last standardApi api 0 ∅ j funcName Hf) as Hlast.
    simpl in Hlast. rewrite Hj in Hlast. simpl in Hlast. rewrite Hlast.
    + symmetry. apply elem_of_list_to_map.
      * by rewrite fst_zip by lia.
      * apply list_elem_of_lookup. exists j. rewrite lookup_zip_with, Hj. simpl.
        by rewrite Hf.
    + intros ->. apply Hproto. by eapply list_elem_of_lookup_2.
    + intros k Hk.
      destruct (lookup_lt_is_Some_2 standardApi k) as [key' Hk']; [lia|].
      rewrite Hk'. simpl. intros ->.
      pose proof (NoDup_lookup _ _ _ _ Hnodup Hj Hk'). lia.
  - rewrite reduce_from_lookup_other, lookup_empty.
    + symmetry. apply not_elem_of_list_to_map. by rewrite fst_zip by lia.
    + intros k Hk.
      destruct (lookup_lt_is_Some_2 standardApi k) as [key' Hk']; [lia|].
      rewrite Hk'. simpl. intros ->. apply Hnotin. by eapply list_elem_of_lookup_2.
Qed.

(** X13: when bundle 0 has distinct names, none of them [__proto__], and
    every bundle has as many names as bundle 0, a mapping that resolution
    returns is the pairing, position for position, of bundle 0 with the
    bundle at the smallest index whose exit-method name is a property of
    the document: nothing else is ever returned. *)
Theorem findSupported_Some_distinct (apiList : list (list string))
    (in_document : string → bool) (standardApi : list string)
    (mapping : gmap string string) :
  apiList !! 0%nat = Some standardApi →
  NoDup standardApi →
  "__proto__" ∉ standardApi →
  Forall (λ api : list string, length api = length standardApi) apiList →
  findSupported apiList in_document = Some mapping →
  ∃ i api, first_match apiList in_document i ∧ apiList !! i = Some api ∧
           mapping = list_to_map (zip standardApi api).
Proof.
  intros H0 Hnodup Hproto Hlen. unfold findSupported. rewrite H0.
  destruct (supportedApi in_document apiList) as [api|] eqn:Hloop; [|done].
  intros [= <-].
  destruct (supportedApi_Some_first _ _ _ Hloop) as (i & Hi & Hfirst).
  exists i, api. split_and!; [done..|].
  apply reduce_from_zip; [done..|].
  eapply (Forall_lookup_1 _ _ _ _ Hlen), Hi.
Qed.

(** X14: with the shipped list, on every document: a mapping that is
    resolved defines each of the six names the controller looks up, with a
    non-empty name, and the document has the property it names as
    [exitFullscreen]. *)
Theorem API_LIST_mapping_complete (in_document : string → bool)
    (mapping : gmap string string) :
  findSupported API_LIST in_document = Some mapping →
  (∀ name, name ∈ ["requestFullscreen"; "exitFullscreen"; "fullscreenElement";
                   "fullscreenEnabled"; "fullscreenchange"; "fullscreenerror"] →
           ∃ resolved, mapping !! name = Some resolved ∧ resolved ≠ "") ∧
  ∃ exitName, mapping !! "exitFullscreen" = Some exitName ∧
              in_document exitName = true.
Proof.
  unfold findSupported.
  destruct (supportedApi in_document API_LIST) as [api|] eqn:Hloop; [|done].
  change (API_LIST !! 0%nat) with (head API_LIST). simpl. intros [= <-].
  destruct (supportedApi_Some_first _ _ _ Hloop) as (i & Hi & (api' & Hi' & Hin) & _).
  rewrite Hi in Hi'. injection Hi' as <-.
  assert (Hbundle : api ∈ API_LIST) by (by eapply list_elem_of_lookup_2).
  clear Hloop Hi. unfold API_LIST in Hbundle.
  repeat (apply elem_of_cons in Hbundle as [->|Hbundle]);
    [..|by apply elem_of_nil in Hbundle].
  all: split;
    [ intros name Hname;
      repeat (apply elem_of_cons in Hname as [->|Hname]);
        [..|by apply elem_of_nil in Hname];
        (eexists; split; [vm_compute; reflexivity|done])
    | eexists; split; [vm_compute; reflexivity|exact Hin] ].
Qed.

(** * The further properties on the small host *)

Lemma session_slot_entered_witness :
  let s := State legacy_page VNull [] in
  let es := [Op (Toggle (TObject VUndefined (VObject 5)));
             HostChange (Page [] VNull true false);
             Op (Request (TObject VUndefined (VObject 6)))] in
  slot_entered s ∧ slot_entered (session legacy_controller es s) ∧
  activeVideo (session legacy_controller es s) = VObject 6.
Proof.
  intros s es.
  assert (Hstart : slot_entered s) by (left; reflexivity).
  exact (conj Hstart (conj (session_slot_entered legacy_controller es s Hstart) eq_refl)).
Defined.

Lemma session_standard_keeps_slot_witness :
  let s := State standard_page VNull [] in
  let es := [Op (Request (TObject (VObject 8) (VObject 5))); Op (Toggle TUndefined);
             Op (OnChange (VObject 6))] in
  is_Some (API standard_controller) ∧
  activeVideo (session standard_controller es s) = VNull.
Proof.
  intros s es.
  assert (Hmode : is_Some (API standard_controller)).
  { exists (default ∅ (API standard_controller)). vm_compute. reflexivity. }
  exact (conj Hmode (session_standard_keeps_slot standard_controller es s Hmode)).
Defined.

Lemma session_legacy_calls_witness :
  let s := State legacy_page VNull [] in
  let es := [Op (Request (TObject VUndefined (VObject 5))); Op Exit;
             Op (OnError (VObject 6)); Op (Toggle (TObject VUndefined (VObject 5)))] in
  API legacy_controller = None ∧
  ∃ made, calls (session legacy_controller es s) = (calls s ++ made)%list ∧
          Forall (λ k, truthy (receiver k) = true ∧
                       method k = "webkitEnterFullscreen" ∧ args k = []) made.
Proof.
  intros s es.
  exact (conj eq_refl (session_legacy_calls legacy_controller es s eq_refl)).
Defined.

Lemma exit_standard_forwards_witness :
  let api := default ∅ (API standard_controller) in
  let s := State (Page (names standard_page) (VObject 8) false false) VNull [] in
  API standard_controller = Some api ∧
  invoke (env s) (VObject 0) (prop_key (api !! "exitFullscreen")) []
  = (Normal (VObject 3), standard_page) ∧
  exit standard_controller s
  = (Normal (VObject 3),
     State standard_page VNull [Call (VObject 0) "exitFullscreen" []]).
Proof.
  intros api s.
  assert (Hmode : API standard_controller = Some api) by (vm_compute; reflexivity).
  assert (Hcall : invoke (env s) (VObject 0) (prop_key (api !! "exitFullscreen")) []
                  = (Normal (VObject 3), standard_page)) by (vm_compute; reflexivity).
  refine (conj Hmode (conj Hcall _)).
  pose proof (exit_standard_forwards standard_controller api s _ _ Hmode Hcall) as Hrun.
  vm_compute in Hrun. vm_compute. exact Hrun.
Defined.

Lemma listeners_standard_register_witness :
  let api := default ∅ (API standard_controller) in
  let s := State standard_page VNull [] in
  API standard_controller = Some api ∧
  onChange standard_controller (VObject 6) s
  = (Normal VUndefined,
     State standard_page VNull
       [Call (VObject 0) "addEventListener"
          [VString "fullscreenchange"; VObject 6; VBool false]]).
Proof.
  intros api s.
  assert (Hmode : API standard_controller = Some api) by (vm_compute; reflexivity).
  refine (conj Hmode _).
  pose proof (proj1 (listeners_standard_register standard_controller api
                       (VObject 6) s Hmode)) as Hrun.
  vm_compute in Hrun. vm_compute. exact Hrun.
Defined.

Lemma request_legacy_then_element_witness :
  let s := State legacy_page VNull [] in
  let w := Page [] (VObject 5) true false in
  API legacy_controller = None ∧
  truthy (VObject 5) = true ∧
  invoke (env s) (VObject 5) "webkitEnterFullscreen" [] = (Normal (VObject 3), w) ∧
  element legacy_controller
    (snd (request legacy_controller (TObject VUndefined (VObject 5)) s))
  = VObject 5.
Proof.
  intros s w.
  exact (conj eq_refl (conj eq_refl (conj eq_refl
    (request_legacy_then_element legacy_controller s VUndefined (VObject 5)
       (VObject 3) w eq_refl eq_refl eq_refl)))).
Defined.

Lemma request_legacy_replaces_witness :
  let s := State legacy_page VNull [] in
  let w := Page [] (VObject 5) true false in
  let w' := Page [] (VObject 6) true false in
  API legacy_controller = None ∧
  truthy (VObject 5) = true ∧ truthy (VObject 6) = true ∧
  invoke (env s) (VObject 5) "webkitEnterFullscreen" [] = (Normal (VObject 3), w) ∧
  invoke w (VObject 6) "webkitEnterFullscreen" [] = (Normal (VObject 3), w') ∧
  (request legacy_controller (TObject VUndefined (VObject 5));;
   request legacy_controller (TObject VUndefined (VObject 6))) s
  = (Normal (VObject 3),
     State w' (VObject 6) [enter_call (VObject 5); enter_call (VObject 6)]).
Proof.
  intros s w w'.
  exact (conj eq_refl (conj eq_refl (conj eq_refl (conj eq_refl (conj eq_refl
    (request_legacy_replaces legacy_controller s VUndefined VUndefined
       (VObject 5) (VObject 6) (VObject 3) w (VObject 3) w'
       eq_refl eq_refl eq_refl eq_refl eq_refl)))))).
Defined.

Lemma toggle_legacy_leaves_fullscreen_witness :
  let w := Page [] (VObject 5) true false in
  let s := State w (VObject 5) [enter_call (VObject 5)] in
  API legacy_controller = None ∧
  truthy (VObject 5) = true ∧
  truthy (get_property w (VObject 5) "webkitDisplayingFullscreen") = true ∧
  toggle legacy_controller (TObject VUndefined (VObject 5)) s
  = (Normal VUndefined, State w VNull [enter_call (VObject 5)]).
Proof.
  intros w s.
  exact (conj eq_refl (conj eq_refl (conj eq_refl
    (proj1 (toggle_legacy_leaves_fullscreen legacy_controller s VUndefined (VObject 5)
              eq_refl eq_refl eq_refl eq_refl))))).
Defined.

Lemma createFullscreen_mode_witness :
  let s := State legacy_page (VObject 5) [] in
  let c := Controller None 0 4 in
  let s' := State legacy_page VNull [Call (VObject 0) "createElement" [VString "video"]] in
  createFullscreen API_LIST 0 s = (Normal c, s') ∧
  (API c = None ↔
   Forall (λ api, has_property (env s) 0%nat (prop_key (api !! 1%nat)) = false) API_LIST).
Proof.
  intros s c s'.
  assert (Hcreate : createFullscreen API_LIST 0 s = (Normal c, s')) by reflexivity.
  exact (conj Hcreate (proj1 (createFullscreen_mode API_LIST 0%nat s c s' Hcreate))).
Defined.

Lemma findSupported_Some_distinct_witness :
  let standardApi := default [] (API_LIST !! 0%nat) in
  let mapping := default ∅ (findSupported API_LIST webkit_legacy_document) in
  NoDup standardApi ∧ ("__proto__" ∉ standardApi) ∧
  Forall (λ api : list string, length api = length standardApi) API_LIST ∧
  findSupported API_LIST webkit_legacy_document = Some mapping ∧
  ∃ i api, first_match API_LIST webkit_legacy_document i ∧
           API_LIST !! i = Some api ∧ mapping = list_to_map (zip standardApi api).
Proof.
  intros standardApi mapping.
  assert (Hnodup : NoDup standardApi).
  { apply (bool_decide_unpack _). vm_compute. exact I. }
  assert (Hproto : "__proto__" ∉ standardApi).
  { apply (bool_decide_unpack _). vm_compute. exact I. }
  assert (Hlen : Forall (λ api : list string, length api = length standardApi) API_LIST).
  { repeat constructor. }
  assert (Hfind : findSupported API_LIST webkit_legacy_document = Some mapping).
  { vm_compute. reflexivity. }
  exact (conj Hnodup (conj Hproto (conj Hlen (conj Hfind
    (findSupported_Some_distinct API_LIST webkit_legacy_document standardApi mapping
       eq_refl Hnodup Hproto Hlen Hfind))))).
Defined.

Lemma API_LIST_mapping_complete_witness :
  let mapping := default ∅ (findSupported API_LIST webkit_legacy_document) in
  findSupported API_LIST webkit_legacy_document = Some mapping ∧
  ∃ exitName, mapping !! "exitFullscreen" = Some exitName ∧
              webkit_legacy_document exitName = true.
Proof.
  intros mapping.
  assert (Hfind : findSupported API_LIST webkit_legacy_document = Some mapping).
  { vm_compute. reflexivity. }
  exact (conj Hfind (proj2 (API_LIST_mapping_complete webkit_legacy_document
                              mapping Hfind))).
Defined.
